(** * Kid Draughts API: the PDN formatter and the request handlers

    A shallow embedding of [pdn.js] (the notation formatter) and of the two
    versions of [index.js] (the Express handlers over three MongoDB
    collections), followed by the properties proved about them.

    Conventions of the embedding.
    - A JavaScript value that can reach the code (a parsed JSON body, a
      document read back from the store) is a [JS.value].  Numbers are the
      integers together with NaN and the two infinities; a number with a
      fractional part is not represented.  Strings are Rocq strings,
      sequences of one-byte characters; of JavaScript's white space only the
      ASCII characters are recognised by [JS.trim].
    - The conversion of a string to a number is the runtime's; it is a
      parameter ([JS.Runtime]) and no proof looks inside it.
    - Wall-clock reads ([new Date()], [Date.now()]) are inputs of the
      function that performs them, one per call site.
    - A store call can fail for reasons outside the program (network, server);
      every call site takes the error it is made to fail with, if any.
    - The API key middleware and the process bootstrap are not modelled: a
      handler below is the function registered after [requireApiKey]. *)

From Stdlib Require Import ZArith List String Ascii Bool Lia Arith Finite.
From Stdlib Require Import Numbers.DecimalString Numbers.DecimalZ.
From Stdlib Require Import Numbers.DecimalPos.
Import ListNotations.
Open Scope string_scope.
Open Scope list_scope.

(* ================================================================== *)
(** ** JavaScript values and the conversions the code relies on *)
(* ================================================================== *)

Module JS.

#[local] Set Warnings "-register-all".

Inductive number : Type :=
| Fin (z : Z)
| NaN
| Inf (negative : bool).

Inductive value : Type :=
| VUndefined
| VNull
| VBool (b : bool)
| VNum (n : number)
| VStr (s : string)
| VArr (items : list value)
| VObj (props : list (string * value)).

(** Exceptions that the modelled code can see. *)
Inductive exn : Type :=
| TypeError
| MongoError (code : value).

(** The result of running a piece of code: it returns, it throws, or the
    step budget of a loop ran out (shown below never to happen). *)
Inductive outcome (A : Type) : Type :=
| Returns (a : A)
| Throws (e : exn)
| OutOfFuel.
Arguments Returns {A} a.
Arguments Throws {A} e.
Arguments OutOfFuel {A}.

Definition LF : string := String (ascii_of_nat 10) "".
Definition DQUOTE : string := String (ascii_of_nat 34) "".

Definition number_eqb (a b : number) : bool :=
  match a, b with
  | Fin x, Fin y => Z.eqb x y
  | NaN, NaN => true
  | Inf x, Inf y => Bool.eqb x y
  | _, _ => false
  end.

(** Structural equality of values; this is how the store compares keys. *)
Fixpoint value_eqb (a b : value) {struct a} : bool :=
  match a, b with
  | VUndefined, VUndefined => true
  | VNull, VNull => true
  | VBool x, VBool y => Bool.eqb x y
  | VNum x, VNum y => number_eqb x y
  | VStr x, VStr y => String.eqb x y
  | VArr xs, VArr ys =>
      (fix items (xs ys : list value) {struct xs} : bool :=
         match xs, ys with
         | [], [] => true
         | x :: xs', y :: ys' => value_eqb x y && items xs' ys'
         | _, _ => false
         end) xs ys
  | VObj xs, VObj ys =>
      (fix props (xs ys : list (string * value)) {struct xs} : bool :=
         match xs, ys with
         | [], [] => true
         | (k, x) :: xs', (k', y) :: ys' =>
             String.eqb k k' && value_eqb x y && props xs' ys'
         | _, _ => false
         end) xs ys
  | _, _ => false
  end.

(** [!!v] *)
Definition truthy (v : value) : bool :=
  match v with
  | VUndefined | VNull => false
  | VBool b => b
  | VNum (Fin z) => negb (Z.eqb z 0)
  | VNum NaN => false
  | VNum (Inf _) => true
  | VStr s => negb (String.eqb s "")
  | VArr _ | VObj _ => true
  end.

(** [a || b] *)
Definition or_else (a b : value) : value := if truthy a then a else b.

(** [v == null]: the values on which a property read throws. *)
Definition nullish (v : value) : bool :=
  match v with VUndefined | VNull => true | _ => false end.

(** [v === undefined] *)
Definition is_undefined (v : value) : bool :=
  match v with VUndefined => true | _ => false end.

(** [v === "lit"] for a string literal. *)
Definition is_string (v : value) (lit : string) : bool :=
  match v with VStr s => String.eqb s lit | _ => false end.

(** [Array.isArray(v)] *)
Definition isArray (v : value) : bool :=
  match v with VArr _ => true | _ => false end.

Fixpoint assoc (k : string) (props : list (string * value)) : option value :=
  match props with
  | [] => None
  | (k', v) :: rest => if String.eqb k k' then Some v else assoc k rest
  end.

Definition decimal (z : Z) : string := NilZero.string_of_int (Z.to_int z).

Definition number_to_string (n : number) : string :=
  match n with
  | Fin z => decimal z
  | NaN => "NaN"
  | Inf false => "Infinity"
  | Inf true => "-Infinity"
  end.

(** [String(v)], also what a template literal and [+=] on a string do. *)
Fixpoint ToString (v : value) : string :=
  match v with
  | VUndefined => "undefined"
  | VNull => "null"
  | VBool true => "true"
  | VBool false => "false"
  | VNum n => number_to_string n
  | VStr s => s
  | VArr items =>
      String.concat ","
        (map (fun e => match e with
                       | VUndefined | VNull => ""
                       | _ => ToString e
                       end) items)
  | VObj _ => "[object Object]"
  end.

(** Property read [v?.k] for the names the code uses (none of them lives on
    a prototype): an own property of an object, [length] of an array or a
    string, [undefined] otherwise, and [undefined] on null and undefined. *)
Definition get (v : value) (k : string) : value :=
  match v with
  | VObj props => match assoc k props with Some x => x | None => VUndefined end
  | VArr items =>
      if String.eqb k "length" then VNum (Fin (Z.of_nat (List.length items)))
      else VUndefined
  | VStr s =>
      if String.eqb k "length" then VNum (Fin (Z.of_nat (String.length s)))
      else VUndefined
  | _ => VUndefined
  end.

(** Indexed read [v[i]] on a value that is neither null nor undefined. *)
Definition at_index (v : value) (i : nat) : value :=
  match v with
  | VArr items => nth i items VUndefined
  | VStr s =>
      match String.get i s with
      | Some c => VStr (String c "")
      | None => VUndefined
      end
  | VObj props =>
      match assoc (decimal (Z.of_nat i)) props with
      | Some x => x
      | None => VUndefined
      end
  | _ => VUndefined
  end.

(** The host's conversion of a string to a number. *)
Class Runtime : Type := { StringToNumber : string -> number }.

Section Conversions.
Context `{Runtime}.

(** [Number(v)] *)
Definition ToNumber (v : value) : number :=
  match v with
  | VUndefined => NaN
  | VNull => Fin 0
  | VBool b => Fin (if b then 1 else 0)
  | VNum n => n
  | VStr s => StringToNumber s
  | VArr _ | VObj _ => StringToNumber (ToString v)
  end.

(** [Number.isFinite(x)] *)
Definition isFinite (x : number) : bool :=
  match x with Fin _ => true | _ => false end.

(** [a < b] on two numbers. *)
Definition number_ltb (a b : number) : bool :=
  match a, b with
  | NaN, _ | _, NaN => false
  | Fin x, Fin y => Z.ltb x y
  | Fin _, Inf neg => negb neg
  | Inf neg, Fin _ => neg
  | Inf x, Inf y => x && negb y
  end.

(** [a * b] on two numbers. *)
Definition number_mul (a b : number) : number :=
  match a, b with
  | Fin x, Fin y => Fin (x * y)
  | NaN, _ | _, NaN => NaN
  | Inf s, Fin y | Fin y, Inf s =>
      if Z.eqb y 0 then NaN else Inf (xorb s (Z.ltb y 0))
  | Inf s, Inf t => Inf (xorb s t)
  end.

(** [a + b] on two numbers. *)
Definition number_add (a b : number) : number :=
  match a, b with
  | Fin x, Fin y => Fin (x + y)
  | NaN, _ | _, NaN => NaN
  | Inf s, Fin _ | Fin _, Inf s => Inf s
  | Inf s, Inf t => if Bool.eqb s t then Inf s else NaN
  end.
End Conversions.

(** [s.padStart(n, c)] for a one-character pad. *)
Definition padStart (n : nat) (c : ascii) (s : string) : string :=
  String.concat "" (repeat (String c "") (n - String.length s)) ++ s.

Definition is_white (c : ascii) : bool :=
  let n := nat_of_ascii c in
  Nat.eqb n 32 || (Nat.leb 9 n && Nat.leb n 13).

Fixpoint trimStart (s : string) : string :=
  match s with
  | String c s' => if is_white c then trimStart s' else s
  | EmptyString => EmptyString
  end.

Fixpoint trimEnd (s : string) : string :=
  match s with
  | EmptyString => EmptyString
  | String c s' =>
      match trimEnd s' with
      | EmptyString => if is_white c then EmptyString else String c EmptyString
      | t => String c t
      end
  end.

(** [s.trim()], over ASCII white space. *)
Definition trim (s : string) : string := trimEnd (trimStart s).

(** Induction over values that reaches into arrays and objects. *)
Section ValueInduction.
Variable P : value -> Prop.
Hypothesis on_undefined : P VUndefined.
Hypothesis on_null : P VNull.
Hypothesis on_bool : forall b, P (VBool b).
Hypothesis on_num : forall n, P (VNum n).
Hypothesis on_str : forall s, P (VStr s).
Hypothesis on_arr : forall items, Forall P items -> P (VArr items).
Hypothesis on_obj :
  forall props, Forall (fun kv => P (snd kv)) props -> P (VObj props).

Fixpoint value_induction (v : value) : P v :=
  match v with
  | VUndefined => on_undefined
  | VNull => on_null
  | VBool b => on_bool b
  | VNum n => on_num n
  | VStr s => on_str s
  | VArr items =>
      on_arr items
        ((fix all (l : list value) : Forall P l :=
            match l with
            | [] => Forall_nil P
            | x :: rest => Forall_cons x (value_induction x) (all rest)
            end) items)
  | VObj props =>
      on_obj props
        ((fix all (l : list (string * value))
            : Forall (fun kv => P (snd kv)) l :=
            match l with
            | [] => Forall_nil _
            | kv :: rest =>
                Forall_cons kv (value_induction (snd kv)) (all rest)
            end) props)
  end.
End ValueInduction.

End JS.

(* ================================================================== *)
(** ** pdn.js: the notation formatter *)
(* ================================================================== *)

Module Pdn.
Import JS.
#[local] Open Scope Z_scope.
#[local] Open Scope string_scope.

(** What [generatePDN] reads from [new Date()]. *)
Record Date : Type := {
  getUTCFullYear : Z;
  getUTCMonth : Z;
  getUTCDate : Z
}.

Definition gameTypeForVariant (variant : value) : string :=
  if is_string variant "International" then "20"
  else if is_string variant "Brazilian" then "26"
  else if is_string variant "Turkish" then "30"
  else "20".

(** The object [generatePDN] returns. *)
Record pdn : Type := { tags : list (string * value); text : string }.

(** One rendered tag line, [[k "v"]]. *)
Definition tag_line (kv : string * value) : string :=
  "[" ++ fst kv ++ " " ++ DQUOTE ++ ToString (snd kv) ++ DQUOTE ++ "]".

(** [Object.entries(tags).map(...).join("\n")] *)
Definition tagText (tags : list (string * value)) : string :=
  String.concat LF (map tag_line tags).

(** An upper bound on the number of pairs the loop can emit: every emitted
    pair reads a distinct own element of [moves]. *)
Definition budget (moves : value) : nat :=
  match moves with
  | VArr items => List.length items
  | VObj props => List.length props
  | VStr s => String.length s
  | _ => O
  end.

Section Formatter.
Context `{Runtime}.

(** The [for] loop of [generatePDN], from index [i] on; the result is the
    movetext when the loop is left. *)
Fixpoint pairs (fuel : nat) (moves : value) (i : nat) (moveNo : Z)
    (movetext : string) : option string :=
  match fuel with
  | O => None
  | S fuel' =>
      if number_ltb (Fin (Z.of_nat i)) (ToNumber (get moves "length")) then
        let w := at_index moves i in
        let b := at_index moves (i + 1) in
        if negb (truthy (get w "notation")) then Some movetext
        else
          let movetext :=
            movetext ++ decimal moveNo ++ ". " ++ ToString (get w "notation") in
          let movetext :=
            if truthy (get b "notation")
            then movetext ++ " " ++ ToString (get b "notation")
            else movetext in
          let movetext := movetext ++ " " in
          pairs fuel' moves (i + 2) (moveNo + 1) movetext
      else Some movetext
  end.

Definition generatePDN (d : Date) (game : value) : outcome pdn :=
  let yyyy := getUTCFullYear d in
  let mm := padStart 2 "0" (decimal (getUTCMonth d + 1)) in
  let dd := padStart 2 "0" (decimal (getUTCDate d)) in
  if nullish game then Throws TypeError
  else
    let tags :=
      [ ("Event", VStr "Kid Draughts");
        ("Site", VStr "Roblox");
        ("Date", VStr (decimal yyyy ++ "." ++ mm ++ "." ++ dd));
        ("Round", VStr "?");
        ("White", or_else (get (get game "white") "display") (VStr "White"));
        ("Black", or_else (get (get game "black") "display") (VStr "Black"));
        ("Result", or_else (get game "result") (VStr "*"));
        ("GameType",
         VStr (gameTypeForVariant
                 (or_else (get game "variant") (VStr "International")))) ] in
    let moves := or_else (get game "moves") (VArr []) in
    match pairs (S (budget moves)) moves 0 1 "" with
    | None => OutOfFuel
    | Some movetext =>
        let movetext := movetext ++ ToString (get (VObj tags) "Result") in
        Returns {| tags := tags;
                   text := trim (tagText tags ++ LF ++ LF ++ movetext) |}
    end.
End Formatter.

End Pdn.

(* ================================================================== *)
(** ** The document store, as far as index.js uses it *)
(* ================================================================== *)

(** A collection is the list of its documents in insertion order; a
    document is the list of its fields ([_id] is left out: the program never
    reads it).  Filters are equality filters on one field: the filter value
    is compared with the stored field structurally (a filter value that is
    itself a query-operator document is outside the model).  Three
    behaviours of the MongoDB server are part of the model because the
    handlers run into them:
    - a unique index rejects an insert whose key is already present, with
      error code 11000;
    - an update document whose operators name overlapping paths (one path
      equal to, or a prefix of, another, across [$set], [$inc] and
      [$setOnInsert] alike) is rejected as a whole when it is parsed, with
      error code 40, ConflictingUpdateOperators ("Updating the path 'a.b'
      would create a conflict at 'a'"), whether or not a document matches
      and whether or not the upsert would insert;
    - [$setOnInsert] applies only when the upsert inserts.
    Any other failure is an input: the [fault] a call is given. *)

Module Mongo.
Import JS.
#[local] Open Scope string_scope.
#[local] Open Scope list_scope.

Definition document : Type := list (string * value).
Definition collection : Type := list document.

(** A promise that has settled. *)
Inductive settled (A : Type) : Type :=
| Fulfilled (a : A)
| Rejected (e : exn).
Arguments Fulfilled {A} a.
Arguments Rejected {A} e.

Definition DuplicateKey : exn := MongoError (VNum (Fin 11000)).
Definition ConflictingUpdateOperators : exn := MongoError (VNum (Fin 40)).
Definition PathNotViable : exn := MongoError (VNum (Fin 28)).
Definition TypeMismatch : exn := MongoError (VNum (Fin 14)).

Definition field (d : document) (k : string) : value := get (VObj d) k.

(** The filter [{k: v}]. *)
Definition matches (k : string) (v : value) (d : document) : bool :=
  value_eqb (field d k) v.

Definition findOne (fault : option exn) (c : collection) (k : string)
    (v : value) : settled (option document) :=
  match fault with
  | Some e => Rejected e
  | None => Fulfilled (find (matches k v) c)
  end.

(** [insertOne] into a collection with a unique index on [unique]. *)
Definition insertOne (fault : option exn) (unique : string) (c : collection)
    (d : document) : settled collection :=
  match fault with
  | Some e => Rejected e
  | None =>
      if existsb (matches unique (field d unique)) c then Rejected DuplicateKey
      else Fulfilled (c ++ [d])
  end.

(** Dotted field names. *)
Fixpoint split_on (c : ascii) (s : string) : list string :=
  match s with
  | EmptyString => [EmptyString]
  | String a s' =>
      if Ascii.eqb a c then EmptyString :: split_on c s'
      else match split_on c s' with
           | seg :: rest => String a seg :: rest
           | [] => [String a EmptyString]
           end
  end.

Definition path (k : string) : list string := split_on "." k.

Fixpoint is_prefix (p q : list string) : bool :=
  match p, q with
  | [], _ => true
  | x :: p', y :: q' => String.eqb x y && is_prefix p' q'
  | _ :: _, [] => false
  end.

Definition clash (p q : list string) : bool := is_prefix p q || is_prefix q p.

Fixpoint conflict_free (ps : list (list string)) : bool :=
  match ps with
  | [] => true
  | p :: rest => forallb (fun q => negb (clash p q)) rest && conflict_free rest
  end.

(** The update document [{$set: ..., $inc: ..., $setOnInsert: ...}]; an
    operator with no field stands for an operator that is not there. *)
Record update : Type := {
  u_set : list (string * value);
  u_inc : list (string * number);
  u_setOnInsert : list (string * value)
}.

Definition paths_of (u : update) : list (list string) :=
  map (fun kv => path (fst kv)) (u_set u)
  ++ map (fun kv => path (fst kv)) (u_inc u)
  ++ map (fun kv => path (fst kv)) (u_setOnInsert u).

Fixpoint put (k : string) (v : value) (d : document) : document :=
  match d with
  | [] => [(k, v)]
  | (k', x) :: rest =>
      if String.eqb k k' then (k, v) :: rest else (k', x) :: put k v rest
  end.

(** Rewrite the field at a path; [leaf] gets what is there.  The intermediate
    components of the program's paths are field names, so meeting anything
    but an embedded document on the way is an error. *)
Fixpoint modify (leaf : option value -> settled value) (p : list string)
    (d : document) {struct p} : settled document :=
  match p with
  | [] => Fulfilled d
  | [k] =>
      match leaf (assoc k d) with
      | Fulfilled v => Fulfilled (put k v d)
      | Rejected e => Rejected e
      end
  | k :: rest =>
      match assoc k d with
      | None =>
          match modify leaf rest [] with
          | Fulfilled sub => Fulfilled (put k (VObj sub) d)
          | Rejected e => Rejected e
          end
      | Some (VObj sub) =>
          match modify leaf rest sub with
          | Fulfilled sub' => Fulfilled (put k (VObj sub') d)
          | Rejected e => Rejected e
          end
      | Some _ => Rejected PathNotViable
      end
  end.

Definition set_leaf (v : value) (old : option value) : settled value :=
  Fulfilled v.

Definition inc_leaf (n : number) (old : option value) : settled value :=
  match old with
  | None => Fulfilled (VNum n)
  | Some (VNum m) => Fulfilled (VNum (number_add m n))
  | Some _ => Rejected TypeMismatch
  end.

Fixpoint apply_set (fs : list (string * value)) (d : document)
    : settled document :=
  match fs with
  | [] => Fulfilled d
  | (k, v) :: rest =>
      match modify (set_leaf v) (path k) d with
      | Fulfilled d' => apply_set rest d'
      | Rejected e => Rejected e
      end
  end.

Fixpoint apply_inc (fs : list (string * number)) (d : document)
    : settled document :=
  match fs with
  | [] => Fulfilled d
  | (k, n) :: rest =>
      match modify (inc_leaf n) (path k) d with
      | Fulfilled d' => apply_inc rest d'
      | Rejected e => Rejected e
      end
  end.

(** The operators applied to a matched document. *)
Definition apply_update (u : update) (d : document) : settled document :=
  match apply_set (u_set u) d with
  | Fulfilled d' => apply_inc (u_inc u) d'
  | Rejected e => Rejected e
  end.

(** The document an upsert inserts: the filter's field, then every operator. *)
Definition upserted (k : string) (v : value) (u : update) : settled document :=
  match apply_update u [(k, v)] with
  | Fulfilled d => apply_set (u_setOnInsert u) d
  | Rejected e => Rejected e
  end.

(** Apply [g] to the first document that satisfies [m], if there is one. *)
Fixpoint update_first (m : document -> bool)
    (g : document -> settled document) (c : collection)
    : option (settled collection) :=
  match c with
  | [] => None
  | d :: rest =>
      if m d then
        Some (match g d with
              | Fulfilled d' => Fulfilled (d' :: rest)
              | Rejected e => Rejected e
              end)
      else
        match update_first m g rest with
        | Some (Fulfilled rest') => Some (Fulfilled (d :: rest'))
        | other => other
        end
  end.

(** [updateOne({k: v}, u, {upsert})] *)
Definition updateOne (fault : option exn) (c : collection) (k : string)
    (v : value) (u : update) (upsert : bool) : settled collection :=
  match fault with
  | Some e => Rejected e
  | None =>
      if negb (conflict_free (paths_of u)) then
        Rejected ConflictingUpdateOperators
      else
        match update_first (matches k v) (apply_update u) c with
        | Some r => r
        | None =>
            if upsert then
              match upserted k v u with
              | Fulfilled d => Fulfilled (c ++ [d])
              | Rejected e => Rejected e
              end
            else Fulfilled c
        end
  end.

End Mongo.

(* ================================================================== *)
(** ** index.js, current version: events, games, PDN export *)
(* ================================================================== *)

Module Api.
Import JS Mongo Pdn.
#[local] Open Scope Z_scope.
#[local] Open Scope string_scope.
#[local] Open Scope list_scope.

(** The three collection handles [Events], [Players], [Games]. *)
Record db : Type := {
  Events : collection;
  Players : collection;
  Games : collection
}.

Definition with_Events (s : db) (c : collection) : db :=
  {| Events := c; Players := Players s; Games := Games s |}.
Definition with_Players (s : db) (c : collection) : db :=
  {| Events := Events s; Players := c; Games := Games s |}.
Definition with_Games (s : db) (c : collection) : db :=
  {| Events := Events s; Players := Players s; Games := c |}.

(** What was handed to [res]: [res.json(v)], [res.send(v)], or
    [res.type("text/plain").send(v)]. *)
Inductive content : Type :=
| Json (v : value)
| Send (v : value)
| PlainText (v : value).

Record response : Type := { status : Z; body : content }.

(** A handler run ends with a response ([Returns]) or with the handler's
    promise rejected and nothing sent ([Throws]). *)
Definition reply : Type := outcome response.

Definition ok_true : value := VObj [("ok", VBool true)].
Definition ok_deduped : value :=
  VObj [("ok", VBool true); ("deduped", VBool true)].
Definition failure (code : string) : value :=
  VObj [("ok", VBool false); ("error", VStr code)].

Definition json (st : Z) (v : value) : reply :=
  Returns {| status := st; body := Json v |}.

Definition error_code (e : exn) : value :=
  match e with
  | MongoError c => c
  | TypeError => VUndefined
  end.

(** A destructuring default, [{ k = dflt }]. *)
Definition defaulted (v dflt : value) : value :=
  if is_undefined v then dflt else v.

Definition num (z : Z) : value := VNum (Fin z).

(** The outside world of one [POST /roblox/events]: how the two store calls
    fare and what the three [Date.now()] reads give. *)
Record EventsIO : Type := {
  insert_fault : option exn;
  update_fault : option exn;
  now_receivedAt : Z;
  now_lastEventAt : Z;
  now_player_createdAt : Z
}.

(** The outside world of one [POST /roblox/games/upsert]. *)
Record UpsertIO : Type := {
  upsert_fault : option exn;
  now_game_createdAt : Z;
  now_game_updatedAt : Z
}.

(** The outside world of one [POST /roblox/games/finalize]. *)
Record FinalizeIO : Type := {
  finalize_date : Date;
  finalize_fault : option exn;
  now_final_createdAt : Z;
  now_final_updatedAt : Z;
  now_final_endAt : Z
}.

(** The outside world of one [GET /games/:gameId/pdn]. *)
Record ExportIO : Type := {
  find_fault : option exn;
  export_date : Date
}.

(** [req.header("X-Api-Key") || ""]; a header is a string or [undefined]. *)
Definition header_or_empty (header : option string) : string :=
  match header with
  | Some h => h
  | None => ""
  end.

(** [requireApiKey], with [API_KEY] as read from the environment (a string
    or [undefined]): [Some r] is the response it sends itself, [None] stands
    for the call of [next()]. *)
Definition requireApiKey (API_KEY header : option string) : option response :=
  let key := header_or_empty header in
  let unset :=
    match API_KEY with
    | None => true
    | Some k => String.eqb k ""
    end in
  let differs :=
    match API_KEY with
    | None => true
    | Some k => negb (String.eqb key k)
    end in
  if unset || differs
  then Some {| status := 401; body := Json (VObj [("ok", VBool false)]) |}
  else None.

(** A route [app.post(path, requireApiKey, handler)]. *)
Definition guarded {S : Type} (API_KEY header : option string)
    (handler : S -> reply * S) (s : S) : reply * S :=
  match requireApiKey API_KEY header with
  | Some r => (Returns r, s)
  | None => handler s
  end.

(** [GET /health] *)
Definition get_health : reply := json 200 ok_true.

(** The summary of a user without a record. *)
Definition zero_summary (userId : number) : value :=
  VObj [ ("userId", VNum userId);
         ("totals", VObj [("games", num 0); ("lessonSteps", num 0)]) ].

Section Handlers.
Context `{Runtime}.

Definition toInt (n : value) (fallback : number) : number :=
  let x := ToNumber n in
  if isFinite x then x else fallback.

(** The [if] that guards [POST /roblox/events]. *)
Definition events_missing_fields (eventId userId type ts : value) : bool :=
  negb (truthy eventId) || is_undefined userId
  || negb (truthy type) || negb (truthy ts).

Definition event_document (io : EventsIO) (b : value) : document :=
  [ ("eventId", get b "eventId");
    ("userId", VNum (toInt (get b "userId") (Fin 0)));
    ("type", get b "type");
    ("ts", VNum (toInt (get b "ts") (Fin 0)));
    ("gameId", defaulted (get b "gameId") VNull);
    ("correlationId", defaulted (get b "correlationId") VNull);
    ("sessionId", defaulted (get b "sessionId") VNull);
    ("schemaVersion",
     VNum (toInt (defaulted (get b "schemaVersion") (num 1)) (Fin 1)));
    ("data", or_else (get b "data") (VObj []));
    ("receivedAt", num (now_receivedAt io)) ].

(** The [inc] object built from [type]. *)
Definition inc_for (type : value) : list (string * number) :=
  (if is_string type "match_end" then [("totals.games", Fin 1)] else [])
  ++ (if is_string type "lesson_step_completed"
      then [("totals.lessonSteps", Fin 1)] else []).

Definition player_update (io : EventsIO) (b : value) : update :=
  {| u_set :=
       [ ("lastSeenAt",
          VNum (number_mul (toInt (get b "ts") (Fin 0)) (Fin 1000)));
         ("lastEventType", get b "type");
         ("lastEventAt", num (now_lastEventAt io)) ];
     u_inc := inc_for (get b "type");
     u_setOnInsert :=
       [ ("createdAt", num (now_player_createdAt io));
         ("totals", VObj [("games", num 0); ("lessonSteps", num 0)]) ] |}.

(** [POST /roblox/events] *)
Definition post_events (io : EventsIO) (req_body : value) (s : db)
    : reply * db :=
  let b := or_else req_body (VObj []) in
  if events_missing_fields (get b "eventId") (get b "userId")
       (get b "type") (get b "ts")
  then (json 400 (failure "missing_fields"), s)
  else
    match insertOne (insert_fault io) "eventId" (Events s)
            (event_document io b) with
    | Rejected e =>
        if String.eqb (ToString (error_code e)) "11000"
        then (json 200 ok_deduped, s)
        else (json 500 (failure "db_error"), s)
    | Fulfilled events' =>
        let s := with_Events s events' in
        match updateOne (update_fault io) (Players s) "userId"
                (VNum (toInt (get b "userId") (Fin 0)))
                (player_update io b) true with
        | Rejected _ => (json 200 ok_true, s)
        | Fulfilled players' => (json 200 ok_true, with_Players s players')
        end
    end.

Definition header_missing_fields (g : value) : bool :=
  negb (truthy (get g "gameId")) || negb (truthy (get g "variant"))
  || negb (truthy (get g "white")) || negb (truthy (get g "black"))
  || negb (truthy (get g "startFen")).

Definition header_update (io : UpsertIO) (g : value) : update :=
  {| u_set :=
       [ ("updatedAt", num (now_game_updatedAt io));
         ("mode", or_else (get g "mode") (VStr "pvp"));
         ("variant", get g "variant");
         ("rated", VBool (truthy (get g "rated")));
         ("timeControl", or_else (get g "timeControl") VNull);
         ("white", get g "white");
         ("black", get g "black");
         ("correlationId", or_else (get g "correlationId") VNull);
         ("startFen", get g "startFen") ];
     u_inc := [];
     u_setOnInsert :=
       [ ("gameId", get g "gameId");
         ("createdAt", num (now_game_createdAt io));
         ("status", VStr "running") ] |}.

(** [POST /roblox/games/upsert] *)
Definition post_games_upsert (io : UpsertIO) (req_body : value) (s : db)
    : reply * db :=
  let g := or_else req_body (VObj []) in
  if header_missing_fields g then (json 400 (failure "missing_fields"), s)
  else
    match updateOne (upsert_fault io) (Games s) "gameId" (get g "gameId")
            (header_update io g) true with
    | Rejected e => (Throws e, s)
    | Fulfilled games' => (json 200 ok_true, with_Games s games')
    end.

Definition final_missing_fields (g : value) : bool :=
  negb (truthy (get g "gameId")) || negb (truthy (get g "result"))
  || negb (truthy (get g "finalFen")) || negb (isArray (get g "moves")).

(** The object literal handed to [generatePDN] by the finalize handler. *)
Definition pdn_input (g : value) : value :=
  VObj
    [ ("gameId", get g "gameId");
      ("variant", or_else (get g "variant") (VStr "International"));
      ("white", or_else (get g "white") (VObj [("display", VStr "White")]));
      ("black", or_else (get g "black") (VObj [("display", VStr "Black")]));
      ("result", get g "result");
      ("moves", get g "moves");
      ("timeControl", or_else (get g "timeControl") VNull);
      ("rated", VBool (truthy (get g "rated"))) ].

Definition final_update (io : FinalizeIO) (g : value) (p : pdn) : update :=
  {| u_set :=
       [ ("updatedAt", num (now_final_updatedAt io));
         ("endAt", num (now_final_endAt io));
         ("status", VStr "finished");
         ("mode", or_else (get g "mode") (VStr "pvp"));
         ("variant", or_else (get g "variant") (VStr "International"));
         ("rated", VBool (truthy (get g "rated")));
         ("timeControl", or_else (get g "timeControl") VNull);
         ("white", or_else (get g "white") VNull);
         ("black", or_else (get g "black") VNull);
         ("correlationId", or_else (get g "correlationId") VNull);
         ("result", get g "result");
         ("endReason", or_else (get g "endReason") VNull);
         ("finalFen", get g "finalFen");
         ("moves", get g "moves");
         ("stats", or_else (get g "stats") VNull);
         ("ratings", or_else (get g "ratings") VNull);
         ("pdn", VObj [("tags", VObj (tags p)); ("text", VStr (text p))]) ];
     u_inc := [];
     u_setOnInsert := [ ("createdAt", num (now_final_createdAt io)) ] |}.

(** [POST /roblox/games/finalize] *)
Definition post_games_finalize (io : FinalizeIO) (req_body : value) (s : db)
    : reply * db :=
  let g := or_else req_body (VObj []) in
  if final_missing_fields g then (json 400 (failure "missing_fields"), s)
  else
    match generatePDN (finalize_date io) (pdn_input g) with
    | Throws e => (Throws e, s)
    | OutOfFuel => (OutOfFuel, s)
    | Returns p =>
        match updateOne (finalize_fault io) (Games s) "gameId"
                (get g "gameId") (final_update io g p) true with
        | Rejected e => (Throws e, s)
        | Fulfilled games' => (json 200 ok_true, with_Games s games')
        end
    end.

(** [GET /games/:gameId/pdn]; the route parameter is a string. *)
Definition get_game_pdn (io : ExportIO) (gameId : string) (s : db)
    : reply * db :=
  match findOne (find_fault io) (Games s) "gameId" (VStr gameId) with
  | Rejected e => (Throws e, s)
  | Fulfilled None =>
      (Returns {| status := 404; body := Send (VStr "Not found") |}, s)
  | Fulfilled (Some g) =>
      let cached := get (get (VObj g) "pdn") "text" in
      if truthy cached
      then (Returns {| status := 200; body := PlainText cached |}, s)
      else
        match generatePDN (export_date io) (VObj g) with
        | Throws e => (Throws e, s)
        | OutOfFuel => (OutOfFuel, s)
        | Returns p =>
            (Returns {| status := 200; body := PlainText (VStr (text p)) |}, s)
        end
  end.
(** [GET /players/:userId/summary]; the route parameter is a string. *)
Definition get_player_summary (fault : option exn) (userId : string) (s : db)
    : reply * db :=
  let uid := toInt (VStr userId) (Fin 0) in
  match findOne fault (Players s) "userId" (VNum uid) with
  | Rejected e => (Throws e, s)
  | Fulfilled None => (json 200 (zero_summary uid), s)
  | Fulfilled (Some doc) => (json 200 (VObj doc), s)
  end.

(** The three routes registered behind [requireApiKey]. *)
Definition route_events (API_KEY header : option string) (io : EventsIO)
    (req_body : value) (s : db) : reply * db :=
  guarded API_KEY header (post_events io req_body) s.

Definition route_games_upsert (API_KEY header : option string) (io : UpsertIO)
    (req_body : value) (s : db) : reply * db :=
  guarded API_KEY header (post_games_upsert io req_body) s.

Definition route_games_finalize (API_KEY header : option string)
    (io : FinalizeIO) (req_body : value) (s : db) : reply * db :=
  guarded API_KEY header (post_games_finalize io req_body) s.
End Handlers.

End Api.

(* ================================================================== *)
(** ** index.js, the earlier version at the repository root *)
(* ================================================================== *)

Module Legacy.
Import JS Mongo.
#[local] Open Scope Z_scope.
#[local] Open Scope string_scope.
#[local] Open Scope list_scope.

(** The two collection handles [Events], [Players]. *)
Record db : Type := { Events : collection; Players : collection }.

(** The outside world of one [POST /roblox/events]. *)
Record EventsIO : Type := {
  insert_fault : option exn;
  update_fault : option exn;
  now_receivedAt : Z;
  now_player_createdAt : Z
}.

Section Handlers.
Context `{Runtime}.

Definition events_missing_fields (eventId userId type ts : value) : bool :=
  negb (truthy eventId) || negb (truthy userId)
  || negb (truthy type) || negb (truthy ts).

Definition event_document (io : EventsIO) (b : value) : document :=
  [ ("eventId", get b "eventId");
    ("userId", VNum (ToNumber (get b "userId")));
    ("type", get b "type");
    ("ts", VNum (ToNumber (get b "ts")));
    ("data", or_else (get b "data") (VObj []));
    ("receivedAt", Api.num (now_receivedAt io)) ].

Definition player_update (io : EventsIO) (b : value) : update :=
  {| u_set :=
       [ ("lastSeenAt", VNum (number_mul (ToNumber (get b "ts")) (Fin 1000)));
         ("lastEventType", get b "type") ];
     u_inc := Api.inc_for (get b "type");
     u_setOnInsert :=
       [ ("createdAt", Api.num (now_player_createdAt io));
         ("totals",
          VObj [("games", Api.num 0); ("lessonSteps", Api.num 0)]) ] |}.

(** [POST /roblox/events]: the [Players] update is awaited outside any
    [try]. *)
Definition post_events (io : EventsIO) (req_body : value) (s : db)
    : Api.reply * db :=
  let b := or_else req_body (VObj []) in
  if events_missing_fields (get b "eventId") (get b "userId")
       (get b "type") (get b "ts")
  then (Api.json 400 (Api.failure "missing_fields"), s)
  else
    match insertOne (insert_fault io) "eventId" (Events s)
            (event_document io b) with
    | Rejected e =>
        if String.eqb (ToString (Api.error_code e)) "11000"
        then (Api.json 200 Api.ok_deduped, s)
        else (Api.json 500 (Api.failure "db_error"), s)
    | Fulfilled events' =>
        let s := {| Events := events'; Players := Players s |} in
        match updateOne (update_fault io) (Players s) "userId"
                (VNum (ToNumber (get b "userId")))
                (player_update io b) true with
        | Rejected e => (Throws e, s)
        | Fulfilled players' =>
            (Api.json 200 Api.ok_true,
             {| Events := Events s; Players := players' |})
        end
    end.
(** [GET /players/:userId/summary] *)
Definition get_player_summary (fault : option exn) (userId : string) (s : db)
    : Api.reply * db :=
  let uid := ToNumber (VStr userId) in
  match findOne fault (Players s) "userId" (VNum uid) with
  | Rejected e => (Throws e, s)
  | Fulfilled None => (Api.json 200 (Api.zero_summary uid), s)
  | Fulfilled (Some doc) => (Api.json 200 (VObj doc), s)
  end.

Definition route_events (API_KEY header : option string) (io : EventsIO)
    (req_body : value) (s : db) : Api.reply * db :=
  Api.guarded API_KEY header (post_events io req_body) s.
End Handlers.

End Legacy.

(* ================================================================== *)
(** ** Vocabulary of the properties *)
(* ================================================================== *)

Module Spec.
Import JS Mongo Pdn.
#[local] Open Scope Z_scope.
#[local] Open Scope list_scope.
#[local] Open Scope string_scope.

(** *** Movetext *)

Definition has_notation (ply : value) : bool := truthy (get ply "notation").
Definition notation (ply : value) : string := ToString (get ply "notation").



(** ["{moveNumber}. {white}"], then [" {black}"] if the black ply has a
    notation, then a space. *)
Definition render_pair (moveNo : Z) (wb : value * value) : string :=
  decimal moveNo ++ ". " ++ notation (fst wb)
  ++ (if has_notation (snd wb) then " " ++ notation (snd wb) else "")
  ++ " ".




(** *** Store *)

(** No two documents of the collection agree on field [k]: what a unique
    index on [k] maintains. *)
Fixpoint unique_on (k : string) (c : collection) : bool :=
  match c with
  | [] => true
  | d :: rest => negb (existsb (matches k (field d k)) rest) && unique_on k rest
  end.


(** Top-level fields written one after the other. *)
Definition puts (fs : list (string * value)) (d : document) : document :=
  fold_left (fun acc kv => put (fst kv) (snd kv) acc) fs d.

(** The fields that [POST /roblox/games/upsert] writes on every call. *)
Definition header_fields : list string :=
  [ "updatedAt"; "mode"; "variant"; "rated"; "timeControl";
    "white"; "black"; "correlationId"; "startFen" ].

(** The fields that only [POST /roblox/games/finalize] writes. *)
Definition finalize_only_fields : list string :=
  [ "result"; "endReason"; "finalFen"; "moves"; "stats"; "ratings";
    "endAt"; "pdn" ].

Definition mentions (names : list string) (k : string) : bool :=
  existsb (String.eqb k) names.

(** *** Requests *)

(** The body a handler works on, [req.body || {}]. *)
Definition body_of (req_body : value) : value := or_else req_body (VObj []).

(** The request gets past the required-field check of the events handler. *)
Definition event_accepted (req_body : value) : bool :=
  let b := body_of req_body in
  negb (Api.events_missing_fields (get b "eventId") (get b "userId")
          (get b "type") (get b "ts")).

(** The same for the earlier handler. *)
Definition legacy_event_accepted (req_body : value) : bool :=
  let b := body_of req_body in
  negb (Legacy.events_missing_fields (get b "eventId") (get b "userId")
          (get b "type") (get b "ts")).

(** One of the four required fields is not in the body. *)
Definition event_field_missing (req_body : value) : bool :=
  let b := body_of req_body in
  is_undefined (get b "eventId") || is_undefined (get b "userId")
  || is_undefined (get b "type") || is_undefined (get b "ts").

Definition header_accepted (req_body : value) : bool :=
  negb (Api.header_missing_fields (body_of req_body)).

Definition final_accepted (req_body : value) : bool :=
  negb (Api.final_missing_fields (body_of req_body)).

Definition event_id (req_body : value) : value :=
  get (body_of req_body) "eventId".

Definition game_id (req_body : value) : value :=
  get (body_of req_body) "gameId".

(** The event with this id is already stored. *)
Definition event_stored (id : value) (events : collection) : bool :=
  existsb (matches "eventId" id) events.



(** How an upserting update by the filter [{k: v}] relates the collection
    before and after: the documents stay in place and at most those matching
    the filter get the [$set] fields written, or, when none matches, one new
    document is appended. *)
Definition upsert_effect (k : string) (v : value) (u : update)
    (fresh : document) (c c' : collection) : Prop :=
  Forall2 (fun x y => y = x \/ (matches k v x = true /\ y = puts (u_set u) x))
    c c'
  \/ (find (matches k v) c = None /\ c' = (c ++ [fresh])%list).

(** The document an upsert with top-level writes inserts. *)
Definition inserted (k : string) (v : value) (u : update) : document :=
  puts (u_setOnInsert u) (puts (u_set u) [(k, v)]).


(** The request carries the configured key: [API_KEY] is set and not empty,
    and the header equals it. *)
Definition authorized (API_KEY header : option string) : bool :=
  match API_KEY, header with
  | Some k, Some h => negb (String.eqb k "") && String.eqb h k
  | _, _ => false
  end.

Definition unauthorized : Api.response :=
  {| Api.status := 401; Api.body := Api.Json (VObj [("ok", VBool false)]) |}.

(** *** Sample data *)

(** A runtime for running examples in which no string is converted to a
    number. *)
Definition sample_runtime : Runtime := {| StringToNumber := fun _ => NaN |}.

Definition sample_date : Date :=
  {| getUTCFullYear := 2024; getUTCMonth := 2; getUTCDate := 9 |}.

Definition ply (n : string) : value := VObj [("notation", VStr n)].

(** The game of the specification's formatter example. *)
Definition example_game : value :=
  VObj [ ("variant", VStr "International");
         ("white", VObj [("display", VStr "Ann")]);
         ("black", VObj [("display", VStr "Bo")]);
         ("result", VStr "1-0");
         ("moves", VArr [ply "32-28"; ply "19-23"; ply "28x19"]) ].


(** The tag a formatter result carries under a name. *)
Definition tag (p : pdn) (name : string) : value := get (VObj (tags p)) name.

Definition empty_db : Api.db :=
  {| Api.Events := []; Api.Players := []; Api.Games := [] |}.

Definition quiet_events_io : Api.EventsIO :=
  {| Api.insert_fault := None; Api.update_fault := None;
     Api.now_receivedAt := 1700000000000;
     Api.now_lastEventAt := 1700000000001;
     Api.now_player_createdAt := 1700000000002 |}.

Definition event_body (eventId : string) (userId : Z) (type : string) (ts : Z)
    : value :=
  VObj [ ("eventId", VStr eventId); ("userId", Api.num userId);
         ("type", VStr type); ("ts", Api.num ts) ].

(** The cached notation text of a stored game, [g.pdn?.text]. *)
Definition cached_text (g : document) : value :=
  get (get (VObj g) "pdn") "text".

Definition sample_event : value := event_body "e1" 7 "login" 1700000000.

Definition sample_header : value :=
  VObj [ ("gameId", VStr "g1"); ("variant", VStr "Brazilian");
         ("startFen", VStr "W:W31-50:B1-20");
         ("white", VObj [("userId", Api.num 7); ("display", VStr "Ann")]);
         ("black", VObj [("userId", Api.num 8); ("display", VStr "Bo")]) ].

Definition sample_final (result : string) (plies : list value) : value :=
  VObj [ ("gameId", VStr "g1"); ("result", VStr result);
         ("finalFen", VStr "W:W28:B19"); ("moves", VArr plies) ].

Definition quiet_upsert_io : Api.UpsertIO :=
  {| Api.upsert_fault := None;
     Api.now_game_createdAt := 1700000000100;
     Api.now_game_updatedAt := 1700000000101 |}.

Definition quiet_finalize_io (t : Z) : Api.FinalizeIO :=
  {| Api.finalize_date := sample_date;
     Api.finalize_fault := None;
     Api.now_final_createdAt := t;
     Api.now_final_updatedAt := t + 1;
     Api.now_final_endAt := t + 2 |}.

Definition quiet_export_io : Api.ExportIO :=
  {| Api.find_fault := None; Api.export_date := sample_date |}.





(** A series of event requests, one after the other. *)
Fixpoint replay `{Runtime} (requests : list (Api.EventsIO * value))
    (s : Api.db) : Api.db :=
  match requests with
  | [] => s
  | (io, req) :: rest => replay rest (snd (Api.post_events io req s))
  end.

(** Two [match_end] events of user 7. *)
Definition two_match_ends : list (Api.EventsIO * value) :=
  [ (quiet_events_io, event_body "e1" 7 "match_end" 1700000000);
    (quiet_events_io, event_body "e2" 7 "match_end" 1700000060) ].

(** A store failure that carries no error code, as a lost connection does. *)
Definition connection_lost : exn := MongoError VUndefined.

Definition legacy_failing_update_io : Legacy.EventsIO :=
  {| Legacy.insert_fault := None;
     Legacy.update_fault := Some connection_lost;
     Legacy.now_receivedAt := 1700000000000;
     Legacy.now_player_createdAt := 1700000000002 |}.

Definition failing_update_io : Api.EventsIO :=
  {| Api.insert_fault := None;
     Api.update_fault := Some connection_lost;
     Api.now_receivedAt := 1700000000000;
     Api.now_lastEventAt := 1700000000001;
     Api.now_player_createdAt := 1700000000002 |}.

End Spec.

(* ================================================================== *)
(** ** Facts about values, strings and decimal numerals *)
(* ================================================================== *)

Module JSFacts.
Import JS.
#[local] Open Scope string_scope.

Lemma number_eqb_eq (a b : number) : number_eqb a b = true <-> a = b.
Proof.
  destruct a as [x| |x], b as [y| |y]; simpl; split; intro E;
    try discriminate; try reflexivity.
  - apply Z.eqb_eq in E. now subst.
  - injection E as ->. apply Z.eqb_refl.
  - apply Bool.eqb_prop in E. now subst.
  - injection E as ->. apply Bool.eqb_reflx.
Qed.

Lemma value_eqb_eq (a b : value) : value_eqb a b = true <-> a = b.
Proof.
  revert b. induction a as [ | |x|x|x|xs IH|xs IH] using value_induction;
    intros [ | |y|y|y|ys|ys]; simpl; split; intro E;
    try discriminate; try reflexivity.
  - apply Bool.eqb_prop in E. now subst.
  - injection E as ->. apply Bool.eqb_reflx.
  - apply number_eqb_eq in E. now subst.
  - injection E as ->. now apply number_eqb_eq.
  - apply String.eqb_eq in E. now subst.
  - injection E as ->. apply String.eqb_refl.
  - f_equal. revert ys E.
    induction IH as [|x xs Hx _ IHxs]; intros [|y ys] E;
      try discriminate; try reflexivity.
    apply andb_true_iff in E as [E1 E2].
    apply Hx in E1. apply IHxs in E2. now subst.
  - injection E as <-.
    induction IH as [|x xs Hx _ IHxs]; [reflexivity|].
    apply andb_true_iff. split; [now apply Hx | exact IHxs].
  - f_equal. revert ys E.
    induction IH as [|[k x] xs Hx _ IHxs]; intros [|[k' y] ys] E;
      try discriminate; try reflexivity.
    apply andb_true_iff in E as [E12 E3].
    apply andb_true_iff in E12 as [E1 E2].
    apply String.eqb_eq in E1. apply Hx in E2. apply IHxs in E3. now subst.
  - injection E as <-.
    induction IH as [|[k x] xs Hx _ IHxs]; [reflexivity|].
    rewrite String.eqb_refl. simpl.
    apply andb_true_iff. split; [now apply Hx | exact IHxs].
Qed.

Lemma value_eqb_refl (a : value) : value_eqb a a = true.
Proof. now apply value_eqb_eq. Qed.

Lemma value_eqb_neq (a b : value) : value_eqb a b = false <-> a <> b.
Proof.
  split.
  - intros E ->. rewrite value_eqb_refl in E. discriminate.
  - intro N. destruct (value_eqb a b) eqn:E; [|reflexivity].
    apply value_eqb_eq in E. contradiction.
Qed.


Lemma append_assoc (a b c : string) : (a ++ b) ++ c = a ++ (b ++ c).
Proof. induction a as [|x a IH]; simpl; [reflexivity | now rewrite IH]. Qed.

(** Decimal numerals determine the integer. *)
Lemma decimal_inj (a b : Z) : decimal a = decimal b -> a = b.
Proof.
  unfold decimal. intro E.
  apply DecimalZ.to_int_inj.
  assert (N : forall z, Z.to_int z <> Decimal.Pos Decimal.Nil
                        /\ Z.to_int z <> Decimal.Neg Decimal.Nil).
  { intros [|p|p]; simpl; split; try discriminate;
      intros [= F]; now apply (DecimalPos.Unsigned.to_uint_nonnil p). }
  destruct (N a) as [Ha1 Ha2], (N b) as [Hb1 Hb2].
  pose proof (NilZero.isi _ Ha1 Ha2) as Ia.
  pose proof (NilZero.isi _ Hb1 Hb2) as Ib.
  rewrite E in Ia. rewrite Ia in Ib. now injection Ib.
Qed.

(** Trimming leaves alone a text that neither starts nor ends in white
    space. *)
Lemma trimEnd_app (a b : string) :
  trimEnd b <> "" -> trimEnd (a ++ b) = a ++ trimEnd b.
Proof.
  intro N. induction a as [|c a IH]; simpl; [reflexivity|].
  rewrite IH. destruct (a ++ trimEnd b) eqn:E; [|reflexivity].
  destruct a; simpl in E; [contradiction | discriminate].
Qed.

End JSFacts.

(* ================================================================== *)
(** ** The formatter's loop *)
(* ================================================================== *)

Module PdnFacts.
Import JS Pdn Spec JSFacts.
#[local] Open Scope string_scope.

Section WithRuntime.
Context `{Runtime}.

(** One turn of the loop. *)
Lemma pairs_step (fuel : nat) (moves : value) (i : nat) (moveNo : Z)
    (acc : string) :
  pairs (S fuel) moves i moveNo acc =
  if number_ltb (Fin (Z.of_nat i)) (ToNumber (get moves "length"))
     && has_notation (at_index moves i)
  then pairs fuel moves (i + 2) (moveNo + 1)
         (acc ++ render_pair moveNo (at_index moves i, at_index moves (i + 1)))
  else Some acc.
Proof.
  cbn [pairs]. unfold render_pair, notation, has_notation. cbn [fst snd].
  destruct (number_ltb _ _); cbn [andb]; [|reflexivity].
  destruct (truthy (get (at_index moves i) "notation")); cbn [negb];
    [|reflexivity].
  f_equal.
  destruct (truthy (get (at_index moves (i + 1)) "notation"));
    rewrite ?append_assoc; reflexivity.
Qed.

(** The loop is left as soon as an index fails its test, and needs one unit
    of fuel per turn. *)
Lemma pairs_stops (n : nat) :
  forall fuel moves i moveNo acc,
    number_ltb (Fin (Z.of_nat (i + 2 * n))) (ToNumber (get moves "length"))
    && has_notation (at_index moves (i + 2 * n)) = false ->
    n < fuel ->
    exists m, pairs fuel moves i moveNo acc = Some m.
Proof.
  induction n as [|n IH]; intros [|fuel] moves i moveNo acc Stop Lt;
    try lia; rewrite pairs_step.
  - replace (i + 2 * 0) with i in Stop by lia. rewrite Stop. eauto.
  - destruct (number_ltb (Fin (Z.of_nat i)) _
              && has_notation (at_index moves i));
      [|eauto].
    apply IH; [|lia].
    now replace (i + 2 + 2 * n) with (i + 2 * S n) by lia.
Qed.

Lemma bounded_search (p : nat -> bool) (N : nat) :
  (exists n, n <= N /\ p n = false) \/ (forall n, n <= N -> p n = true).
Proof.
  induction N as [|N [(n & Le & F)|All]].
  - destruct (p 0) eqn:E; [right|left; eauto].
    intros n Le. now replace n with 0 by lia.
  - left. exists n. split; [lia|exact F].
  - destruct (p (S N)) eqn:E; [right|left; eauto].
    intros n Le. destruct (Nat.eq_dec n (S N)) as [->|Ne]; [exact E|].
    apply All. lia.
Qed.

Lemma assoc_in (k : string) (props : list (string * value)) (x : value) :
  assoc k props = Some x -> In k (map fst props).
Proof.
  induction props as [|[k' v] props IH]; simpl; [discriminate|].
  destruct (String.eqb_spec k k') as [->|Ne]; [now left|].
  intro E. right. now apply IH.
Qed.

(** An object has fewer own properties than there are even indices up to
    twice its size, so one of them has no element with a notation. *)
Lemma object_gap (props : list (string * value)) :
  exists n, n <= List.length props
            /\ has_notation (at_index (VObj props) (2 * n)) = false.
Proof.
  destruct (bounded_search
              (fun n => has_notation (at_index (VObj props) (2 * n)))
              (List.length props)) as [Found|All]; [exact Found|].
  exfalso.
  set (key := fun n : nat => decimal (Z.of_nat (2 * n))).
  assert (Inj : Injective key).
  { intros a b E. unfold key in E. apply decimal_inj in E. lia. }
  assert (Sub : incl (map key (seq 0 (S (List.length props))))
                     (map fst props)).
  { intros k In_k. apply in_map_iff in In_k as (n & <- & In_n).
    apply in_seq in In_n.
    specialize (All n ltac:(lia)). unfold has_notation in All.
    cbn [at_index] in All. fold (key n) in All.
    destruct (assoc (key n) props) as [x|] eqn:E; [|discriminate].
    eapply assoc_in, E. }
  apply NoDup_incl_length in Sub.
  - rewrite !length_map, length_seq in Sub. lia.
  - apply Injective_map_NoDup; [exact Inj | apply seq_NoDup].
Qed.

(** The loop always ends within its budget. *)
Lemma pairs_total (moves : value) :
  exists m, pairs (S (budget moves)) moves 0 1 "" = Some m.
Proof.
  destruct moves as [ | |b|n|s|items|props].
  1-4: apply (pairs_stops 0); [reflexivity | cbn; lia].
  - apply (pairs_stops 0); [|cbn; lia].
    cbn [Nat.add Nat.mul at_index]. unfold has_notation.
    destruct (String.get 0 s); cbn; apply andb_false_r.
  - apply (pairs_stops (List.length items)); [|cbn; lia].
    cbn [get ToNumber String.eqb Ascii.eqb Bool.eqb number_ltb].
    replace (Z.of_nat (0 + 2 * List.length items)
             <? Z.of_nat (List.length items))%Z with false; [reflexivity|].
    symmetry. apply Z.ltb_ge. lia.
  - destruct (object_gap props) as (n & Le & Gap).
    apply (pairs_stops n); [|cbn; lia].
    cbn [Nat.add]. rewrite Gap. apply andb_false_r.
Qed.
End WithRuntime.

End PdnFacts.

(* ================================================================== *)
(** ** The formatter's results *)
(* ================================================================== *)

Module PdnTheorems.
Import JS Pdn Spec JSFacts PdnFacts.
#[local] Open Scope string_scope.

Section WithRuntime.
Context `{Runtime}.





Lemma generatePDN_returns (d : Date) (game : value) :
  nullish game = false -> exists p, generatePDN d game = Returns p.
Proof.
  intro N. unfold generatePDN. rewrite N.
  destruct (pairs_total (or_else (get game "moves") (VArr []))) as [m ->].
  eauto.
Qed.


Lemma tagText_head (kv : string * value) (rest : list (string * value)) :
  exists tail, tagText (kv :: rest) = String "[" tail.
Proof. destruct rest; eexists; reflexivity. Qed.

Lemma trim_framed (c : ascii) (a b : string) :
  is_white c = false -> trimEnd b <> "" ->
  trim (String c a ++ b) = String c a ++ trimEnd b.
Proof.
  intros Inked_head Inked_tail. unfold trim.
  change (trimStart (String c a ++ b))
    with (if is_white c then trimStart (a ++ b) else String c a ++ b).
  rewrite Inked_head. now apply trimEnd_app.
Qed.


(** C2.  The specification's example: ruleset International, Ann against
    Bo, result 1-0, three plies.  Whatever the date, the tags GameType,
    White and Black are "20", "Ann" and "Bo", and the text is the tag lines,
    a blank line, and the movetext [1. 32-28 19-23 2. 28x19 1-0]. *)
Theorem formatter_example_international (d : Date) :
  exists p,
    generatePDN d example_game = Returns p
    /\ tag p "GameType" = VStr "20"
    /\ tag p "White" = VStr "Ann"
    /\ tag p "Black" = VStr "Bo"
    /\ text p = tagText (tags p) ++ LF ++ LF ++ "1. 32-28 19-23 2. 28x19 1-0".
Proof.
  assert (Loop : pairs 4 (VArr [ply "32-28"; ply "19-23"; ply "28x19"]) 0 1 ""
                 = Some "1. 32-28 19-23 2. 28x19 ")
    by (vm_compute; reflexivity).
  unfold generatePDN, example_game.
  cbn [nullish get assoc String.eqb Ascii.eqb Bool.eqb or_else truthy negb
       budget List.length].
  rewrite Loop. eexists. split; [reflexivity|].
  cbn [tags text]. repeat split; try reflexivity.
  match goal with
  | |- trim (tagText (?kv :: ?rest) ++ _) = _ =>
      destruct (tagText_head kv rest) as [tail ->]
  end.
  rewrite trim_framed; [reflexivity | reflexivity | vm_compute; discriminate].
Qed.

End WithRuntime.



End PdnTheorems.

(* ================================================================== *)
(** ** Facts about the store *)
(* ================================================================== *)

Module MongoFacts.
Import JS Mongo Spec JSFacts.
#[local] Open Scope string_scope.
#[local] Open Scope list_scope.

Lemma assoc_put (k0 k : string) (v : value) (d : document) :
  assoc k0 (put k v d) = if String.eqb k0 k then Some v else assoc k0 d.
Proof.
  induction d as [|[k' x] d IH]; cbn [put assoc].
  - now destruct (String.eqb k0 k).
  - destruct (String.eqb_spec k k') as [<-|Ne]; cbn [assoc].
    + now destruct (String.eqb k0 k).
    + rewrite IH.
      destruct (String.eqb_spec k0 k') as [->|Ne0]; [|reflexivity].
      destruct (String.eqb_spec k' k) as [->|_]; [contradiction|reflexivity].
Qed.

Lemma field_put (k0 k : string) (v : value) (d : document) :
  field (put k v d) k0 = if String.eqb k0 k then v else field d k0.
Proof.
  unfold field. cbn [get]. rewrite assoc_put.
  now destruct (String.eqb k0 k).
Qed.


Lemma matches_eq (k : string) (v : value) (d : document) :
  matches k v d = true <-> field d k = v.
Proof. apply value_eqb_eq. Qed.


Lemma find_app_new (m : document -> bool) (c : collection) (d : document) :
  find m c = None -> m d = true -> find m (c ++ [d]) = Some d.
Proof.
  intros Absent Hit. induction c as [|x c IH]; cbn in *; [now rewrite Hit|].
  destruct (m x); [discriminate | now apply IH].
Qed.

Lemma update_first_none (m : document -> bool)
    (g : document -> settled document) (c : collection) :
  find m c = None -> update_first m g c = None.
Proof.
  induction c as [|d c IH]; cbn; [reflexivity|].
  destruct (m d); [discriminate|]. intro Absent. now rewrite IH.
Qed.

(** Updating the first match rewrites that document in place; if the new
    document still matches, it is the one a later lookup finds. *)
Lemma update_first_some (m : document -> bool)
    (g : document -> settled document) (c : collection) (d d' : document) :
  find m c = Some d -> g d = Fulfilled d' -> m d' = true ->
  exists c',
    update_first m g c = Some (Fulfilled c')
    /\ find m c' = Some d'
    /\ List.length c' = List.length c.
Proof.
  intros Found Done Still. induction c as [|x c IH]; cbn in *; [discriminate|].
  destruct (m x) eqn:Mx.
  - injection Found as ->. rewrite Done.
    exists (d' :: c). cbn. now rewrite Still.
  - destruct (IH Found) as (c' & -> & Found' & Len).
    exists (x :: c'). cbn. rewrite Mx. now rewrite Len.
Qed.

Lemma update_first_rejected (m : document -> bool)
    (g : document -> settled document) (c : collection) (d : document)
    (e : exn) :
  find m c = Some d -> g d = Rejected e ->
  update_first m g c = Some (Rejected e).
Proof.
  intros Found Failed. induction c as [|x c IH]; cbn in *; [discriminate|].
  destruct (m x).
  - injection Found as ->. now rewrite Failed.
  - now rewrite (IH Found).
Qed.


Lemma unique_on_app (k : string) (c : collection) (d : document) :
  unique_on k c = true -> existsb (matches k (field d k)) c = false ->
  unique_on k (c ++ [d]) = true.
Proof.
  induction c as [|x c IH]; cbn [unique_on existsb app]; [reflexivity|].
  intros U Fresh. apply andb_true_iff in U as [Fx U].
  apply orb_false_iff in Fresh as [Nx Fresh].
  rewrite IH by assumption. rewrite andb_true_r.
  rewrite existsb_app. cbn [existsb]. apply negb_true_iff in Fx. rewrite Fx.
  cbn [orb]. rewrite orb_false_r. apply negb_true_iff.
  apply value_eqb_neq. intro E. apply value_eqb_neq in Nx. now symmetry in E.
Qed.


Lemma field_puts_other (fs : list (string * value)) :
  forall (d : document) (k : string),
    mentions (map fst fs) k = false -> field (puts fs d) k = field d k.
Proof.
  induction fs as [|[k' v] fs IH]; intros d k Other; [reflexivity|].
  cbn [map fst mentions existsb] in Other.
  apply orb_false_iff in Other as [Ne Other].
  change (puts ((k', v) :: fs) d) with (puts fs (put k' v d)).
  rewrite (IH _ _ Other), field_put. now rewrite Ne.
Qed.

(** An upserting update whose operators write top-level fields only: the
    first match is rewritten in place, or else a new document is appended;
    either way a lookup by the same filter finds the written document. *)
Lemma updateOne_upsert (c : collection) (k : string) (v : value) (u : update)
    (fresh : document) :
  conflict_free (paths_of u) = true ->
  (forall g, apply_update u g = Fulfilled (puts (u_set u) g)) ->
  upserted k v u = Fulfilled fresh ->
  mentions (map fst (u_set u)) k = false ->
  field fresh k = v ->
  exists c' g',
    updateOne None c k v u true = Fulfilled c'
    /\ find (matches k v) c' = Some g'
    /\ match find (matches k v) c with
       | Some g => g' = puts (u_set u) g /\ List.length c' = List.length c
       | None => g' = fresh /\ c' = c ++ [g']
       end.
Proof.
  intros Free Sets New Key_kept Keyed. unfold updateOne. rewrite Free.
  cbn [negb]. destruct (find (matches k v) c) as [g|] eqn:Found.
  - destruct (update_first_some (matches k v) (apply_update u) c g
                (puts (u_set u) g) Found (Sets g)) as (c' & -> & Found' & Len).
    + apply matches_eq. rewrite (field_puts_other _ _ _ Key_kept).
      apply matches_eq. now apply find_some in Found.
    + now exists c', (puts (u_set u) g).
  - rewrite (update_first_none _ _ _ Found), New.
    exists (c ++ [fresh]), fresh. repeat split.
    apply find_app_new; [exact Found | now apply matches_eq].
Qed.

(** Every field of a list of writes reads back as written, for a document
    obtained by [puts] of a closed list of field names. *)
Ltac fields_written :=
  repeat constructor; cbn [fst snd]; unfold puts;
  cbn [fold_left fst snd u_set]; rewrite ?field_put; reflexivity.

End MongoFacts.

(* ================================================================== *)
(** ** Recording events *)
(* ================================================================== *)

Module EventTheorems.
Import JS Mongo Api Spec JSFacts MongoFacts.
#[local] Open Scope string_scope.
#[local] Open Scope list_scope.

Section WithRuntime.
Context `{Runtime}.

Lemma rejected_request (io : EventsIO) (req : value) (s : db) :
  event_accepted req = false ->
  post_events io req s = (json 400 (failure "missing_fields"), s).
Proof.
  unfold event_accepted, post_events, body_of. intro E.
  apply negb_false_iff in E. now rewrite E.
Qed.

Lemma legacy_rejected_request (io : Legacy.EventsIO) (req : value)
    (s : Legacy.db) :
  legacy_event_accepted req = false ->
  Legacy.post_events io req s = (json 400 (failure "missing_fields"), s).
Proof.
  unfold legacy_event_accepted, Legacy.post_events, body_of. intro E.
  apply negb_false_iff in E. now rewrite E.
Qed.

Lemma missing_is_rejected (req : value) :
  event_field_missing req = true ->
  event_accepted req = false /\ legacy_event_accepted req = false.
Proof.
  unfold event_field_missing, event_accepted, legacy_event_accepted,
    events_missing_fields, Legacy.events_missing_fields.
  cbv zeta. intro E.
  assert (K : forall v, is_undefined v = true -> truthy v = false)
    by (now intros []).
  apply orb_true_iff in E as [E|E];
    [apply orb_true_iff in E as [E|E];
     [apply orb_true_iff in E as [E|E]|]|];
    rewrite ?(K _ E), ?E; cbn [negb orb];
    rewrite ?orb_true_r; cbn [negb orb]; rewrite ?orb_true_r; auto.
Qed.

Lemma accepted_run (io : EventsIO) (req : value) (s : db) :
  event_accepted req = true ->
  post_events io req s =
  match insertOne (insert_fault io) "eventId" (Events s)
          (event_document io (body_of req)) with
  | Rejected e =>
      if String.eqb (ToString (error_code e)) "11000"
      then (json 200 ok_deduped, s)
      else (json 500 (failure "db_error"), s)
  | Fulfilled events' =>
      match updateOne (update_fault io) (Players (with_Events s events'))
              "userId" (VNum (toInt (get (body_of req) "userId") (Fin 0)))
              (player_update io (body_of req)) true with
      | Rejected _ => (json 200 ok_true, with_Events s events')
      | Fulfilled players' =>
          (json 200 ok_true, with_Players (with_Events s events') players')
      end
  end.
Proof.
  unfold event_accepted, post_events, body_of. intro E.
  apply negb_true_iff in E. now rewrite E.
Qed.

Lemma event_document_id (io : EventsIO) (req : value) :
  field (event_document io (body_of req)) "eventId" = event_id req.
Proof. reflexivity. Qed.





(** The earlier handler answers a stored id and a failed insert in the
    same way. *)
Lemma legacy_stored_event_is_deduped (io : Legacy.EventsIO)
    (req : value) (s : Legacy.db) :
  legacy_event_accepted req = true ->
  match Legacy.insert_fault io with
  | None =>
      event_stored (event_id req) (Legacy.Events s) = true ->
      Legacy.post_events io req s = (json 200 ok_deduped, s)
  | Some e =>
      Legacy.post_events io req s =
      if String.eqb (ToString (error_code e)) "11000"
      then (json 200 ok_deduped, s)
      else (json 500 (failure "db_error"), s)
  end.
Proof.
  intro Ok. unfold legacy_event_accepted, body_of in Ok.
  apply negb_true_iff in Ok.
  unfold Legacy.post_events, insertOne. rewrite Ok.
  destruct (Legacy.insert_fault io) as [e|]; [reflexivity|].
  intro Stored. unfold event_stored, event_id, body_of in Stored.
  change (field (Legacy.event_document io (or_else req (VObj []))) "eventId")
    with (get (or_else req (VObj [])) "eventId").
  now rewrite Stored.
Qed.

(** C4, as the code has it.  A request in which eventId, userId, type or
    ts is missing is answered 400 [missing_fields] with the store
    untouched, by either version of the handler.  The current handler
    answers so exactly when eventId, type or ts is falsy or userId is
    undefined: userId = 0 gets through, ts = 0 does not. *)
Theorem required_event_fields (io : EventsIO) (lio : Legacy.EventsIO)
    (req : value) (s : db) (ls : Legacy.db) :
  (event_field_missing req = true ->
   post_events io req s = (json 400 (failure "missing_fields"), s)
   /\ Legacy.post_events lio req ls
      = (json 400 (failure "missing_fields"), ls))
  /\ (post_events io req s = (json 400 (failure "missing_fields"), s)
      <-> truthy (get (body_of req) "eventId")
          && negb (is_undefined (get (body_of req) "userId"))
          && truthy (get (body_of req) "type")
          && truthy (get (body_of req) "ts") = false).
Proof.
  split.
  - intro Missing. apply missing_is_rejected in Missing as [A L].
    split; [now apply rejected_request | now apply legacy_rejected_request].
  - assert (Same : event_accepted req
                   = truthy (get (body_of req) "eventId")
                     && negb (is_undefined (get (body_of req) "userId"))
                     && truthy (get (body_of req) "type")
                     && truthy (get (body_of req) "ts")).
    { unfold event_accepted, events_missing_fields. cbv zeta.
      now rewrite !negb_orb, !negb_involutive. }
    rewrite <- Same. split; [|now apply rejected_request].
    destruct (event_accepted req) eqn:Ok; [|reflexivity].
    rewrite (accepted_run io req s Ok). intro Bad. exfalso.
    destruct (insertOne _ _ _ _) as [events'|e].
    + destruct (updateOne _ _ _ _ _ _); discriminate Bad.
    + destruct (String.eqb _ _); discriminate Bad.
Qed.

(** The current handler catches a failed [Players] update: the event is
    recorded and the answer is success. *)
Lemma player_update_failure_is_swallowed (io : EventsIO) (req : value)
    (s : db) (e : exn) :
  event_accepted req = true -> insert_fault io = None ->
  event_stored (event_id req) (Events s) = false ->
  update_fault io = Some e ->
  post_events io req s
  = (json 200 ok_true,
     with_Events s (Events s ++ [event_document io (body_of req)])).
Proof.
  intros Ok Quiet Fresh Fault. rewrite (accepted_run io req s Ok).
  unfold insertOne, updateOne. rewrite Quiet, event_document_id, Fault.
  unfold event_stored in Fresh. now rewrite Fresh.
Qed.

(** C5 fails in the earlier handler.  There, for every accepted new event
    whose [Players] update is rejected, the event is recorded but the
    rejection leaves the handler: the run ends without the success response
    that C5 promises (and that the current handler gives, see above). *)
Theorem legacy_player_update_failure_escapes (io : Legacy.EventsIO)
    (req : value) (s : Legacy.db) (e : exn) :
  legacy_event_accepted req = true -> Legacy.insert_fault io = None ->
  event_stored (event_id req) (Legacy.Events s) = false ->
  Legacy.update_fault io = Some e ->
  Legacy.post_events io req s
  = (Throws e,
     {| Legacy.Events :=
          Legacy.Events s ++ [Legacy.event_document io (body_of req)];
        Legacy.Players := Legacy.Players s |}).
Proof.
  intros Ok Quiet Fresh Fault. unfold legacy_event_accepted, body_of in Ok.
  apply negb_true_iff in Ok.
  unfold Legacy.post_events, insertOne, updateOne. rewrite Ok, Quiet.
  unfold event_stored, event_id, body_of in Fresh.
  change (field (Legacy.event_document io (or_else req (VObj []))) "eventId")
    with (get (or_else req (VObj [])) "eventId").
  rewrite Fresh. cbn [Legacy.Players Legacy.Events]. now rewrite Fault.
Qed.

(** An update that increments a counter names [totals.games] or
    [totals.lessonSteps] next to [totals] itself, and is refused. *)
Lemma counting_update_conflicts (io : EventsIO) (b : value) :
  inc_for (get b "type") <> [] ->
  conflict_free (paths_of (player_update io b)) = false.
Proof.
  unfold paths_of, player_update, inc_for. cbn [u_set u_inc u_setOnInsert].
  destruct (is_string (get b "type") "match_end"),
    (is_string (get b "type") "lesson_step_completed");
    intro Counted; try reflexivity.
  now contradiction Counted.
Qed.

Lemma counted_event_leaves_players (io : EventsIO) (req : value) (s : db) :
  inc_for (get (body_of req) "type") <> [] ->
  Players (snd (post_events io req s)) = Players s.
Proof.
  intro Counted. destruct (event_accepted req) eqn:Ok.
  - rewrite (accepted_run io req s Ok).
    destruct (insertOne _ _ _ _) as [events'|e].
    + unfold updateOne.
      rewrite (counting_update_conflicts io (body_of req) Counted).
      now destruct (update_fault io).
    + now destruct (String.eqb _ _).
  - now rewrite (rejected_request io req s Ok).
Qed.

(** C6 fails on the code.  However many [match_end] events are submitted,
    for whatever users, the player collection is left exactly as it was: the
    store refuses every update that carries the [$inc], so no record gets
    totals.games = N.  (C6 expects the counter to follow the number of
    events.) *)
Theorem match_end_events_leave_players
    (requests : list (EventsIO * value)) (s : db) :
  Forall (fun r => is_string (get (body_of (snd r)) "type") "match_end" = true)
    requests ->
  Players (replay requests s) = Players s.
Proof.
  intro All. revert s.
  induction All as [|[io req] rest Is_end _ IH]; intro s; cbn [replay];
    [reflexivity|].
  rewrite IH. apply counted_event_leaves_players.
  cbn [snd] in Is_end. unfold inc_for. now rewrite Is_end.
Qed.



(** The handler keeps the event collection free of duplicate ids. *)
Lemma events_stay_unique (io : EventsIO) (req : value) (s : db) :
  unique_on "eventId" (Events s) = true ->
  unique_on "eventId" (Events (snd (post_events io req s))) = true.
Proof.
  intro Unique. destruct (event_accepted req) eqn:Ok;
    [|now rewrite (rejected_request io req s Ok)].
  rewrite (accepted_run io req s Ok). unfold insertOne.
  destruct (insert_fault io) as [e|].
  - now destruct (String.eqb _ _).
  - destruct (existsb _ (Events s)) eqn:Stored; [exact Unique|].
    assert (Grown : unique_on "eventId"
                      (Events s ++ [event_document io (body_of req)]) = true)
      by now apply unique_on_app.
    now destruct (updateOne _ _ _ _ _ _).
Qed.
End WithRuntime.

End EventTheorems.

(* ================================================================== *)
(** ** Games: header upsert, finalize, export *)
(* ================================================================== *)

Module GameTheorems.
Import JS Mongo Pdn Api Spec JSFacts MongoFacts PdnTheorems.
#[local] Open Scope string_scope.
#[local] Open Scope list_scope.

Section WithRuntime.
Context `{Runtime}.

Lemma header_store_effect (io : UpsertIO) (b : value) (c : collection) :
  exists c' g',
    updateOne None c "gameId" (get b "gameId") (header_update io b) true
    = Fulfilled c'
    /\ find (matches "gameId" (get b "gameId")) c' = Some g'
    /\ match find (matches "gameId" (get b "gameId")) c with
       | Some g =>
           g' = puts (u_set (header_update io b)) g
           /\ List.length c' = List.length c
       | None =>
           g' = puts (u_setOnInsert (header_update io b))
                  (puts (u_set (header_update io b))
                     [("gameId", get b "gameId")])
           /\ c' = c ++ [g']
       end.
Proof. apply updateOne_upsert; reflexivity. Qed.


(** C8.  An accepted header upsert that reaches the store answers success
    and leaves a game record carrying every header value of the request.
    If the game existed, every field that is not a header field keeps its
    value, among them status, createdAt and the finalize-only fields
    (result, endReason, finalFen, moves, stats, ratings, endAt, pdn), and
    no record is added.  If it did not exist, the record is new, with
    status "running" and createdAt read from the clock during this call.
    Events and players are not touched. *)
Theorem upsert_header_touches_header_only (io : UpsertIO) (req : value)
    (s : db) :
  header_accepted req = true -> upsert_fault io = None ->
  exists s' g',
    post_games_upsert io req s = (json 200 ok_true, s')
    /\ Events s' = Events s /\ Players s' = Players s
    /\ find (matches "gameId" (game_id req)) (Games s') = Some g'
    /\ Forall (fun kv => field g' (fst kv) = snd kv)
         (u_set (header_update io (body_of req)))
    /\ match find (matches "gameId" (game_id req)) (Games s) with
       | Some g =>
           Forall (fun k => field g' k = field g k)
             ("status" :: "createdAt" :: finalize_only_fields)
           /\ (forall k, mentions header_fields k = false ->
                         field g' k = field g k)
           /\ List.length (Games s') = List.length (Games s)
       | None =>
           field g' "status" = VStr "running"
           /\ field g' "createdAt" = num (now_game_createdAt io)
           /\ Games s' = Games s ++ [g']
       end.
Proof.
  intros Ok Quiet. unfold header_accepted in Ok. apply negb_true_iff in Ok.
  unfold post_games_upsert, game_id. fold (body_of req).
  rewrite Ok, Quiet.
  destruct (header_store_effect io (body_of req) (Games s))
    as (c' & g' & -> & Found' & Shape).
  exists (with_Games s c'), g'.
  split; [reflexivity|]. split; [reflexivity|]. split; [reflexivity|].
  split; [exact Found'|]. cbn [Games with_Games].
  destruct (find (matches "gameId" (get (body_of req) "gameId")) (Games s))
    as [g|]; destruct Shape as [-> Rest].
  - split; [|split; [|split]].
    + unfold header_update. fields_written.
    + repeat constructor; apply field_puts_other; reflexivity.
    + intros k Other. now apply field_puts_other.
    + exact Rest.
  - split; [|split; [|split]]; try reflexivity; [|exact Rest].
    repeat constructor.
Qed.



End WithRuntime.

End GameTheorems.

(* ================================================================== *)
(** ** The properties at concrete requests *)
(* ================================================================== *)

Module Instances.
Import JS Mongo Pdn Api Spec EventTheorems GameTheorems.
#[local] Open Scope Z_scope.
#[local] Open Scope string_scope.
#[local] Open Scope list_scope.


(** C4, as worded, fails.  A request that carries all four fields, with
    userId = 0 and ts = 0, is answered 400 [missing_fields]. *)
Lemma zero_timestamp_is_rejected :
  event_field_missing (event_body "e1" 0 "match_end" 0) = false
  /\ post_events (H := sample_runtime) quiet_events_io
       (event_body "e1" 0 "match_end" 0) empty_db
     = (json 400 (failure "missing_fields"), empty_db).
Proof. split; reflexivity. Qed.

(** With a timestamp that is not zero, userId = 0 gets through the check of
    the current handler, and does not get through that of the earlier one. *)
Lemma zero_user_id_is_accepted :
  event_accepted (event_body "e1" 0 "login" 1700000000) = true
  /\ legacy_event_accepted (event_body "e1" 0 "login" 1700000000) = false.
Proof. split; reflexivity. Qed.

Lemma legacy_player_update_failure_escapes_witness :
  legacy_event_accepted sample_event = true
  /\ Legacy.update_fault legacy_failing_update_io = Some connection_lost
  /\ Legacy.post_events (H := sample_runtime) legacy_failing_update_io
       sample_event {| Legacy.Events := []; Legacy.Players := [] |}
     = (Throws connection_lost,
        {| Legacy.Events :=
             [Legacy.event_document (H := sample_runtime)
                legacy_failing_update_io sample_event];
           Legacy.Players := [] |}).
Proof.
  split; [reflexivity|]. split; [reflexivity|].
  apply (legacy_player_update_failure_escapes (H := sample_runtime)
           legacy_failing_update_io sample_event
           {| Legacy.Events := []; Legacy.Players := [] |} connection_lost);
    reflexivity.
Defined.

(** In the earlier handler a [match_end] event needs no outside failure to
    go unanswered: the store refuses its player update. *)
Lemma legacy_match_end_is_not_answered :
  fst (Legacy.post_events (H := sample_runtime)
         {| Legacy.insert_fault := None; Legacy.update_fault := None;
            Legacy.now_receivedAt := 1700000000000;
            Legacy.now_player_createdAt := 1700000000002 |}
         (event_body "e1" 7 "match_end" 1700000000)
         {| Legacy.Events := []; Legacy.Players := [] |})
  = Throws ConflictingUpdateOperators.
Proof. reflexivity. Qed.

(** The same request and failure in the current handler: success. *)
Lemma failed_player_update_is_answered :
  post_events (H := sample_runtime) failing_update_io sample_event empty_db
  = (json 200 ok_true,
     with_Events empty_db
       [event_document (H := sample_runtime) failing_update_io sample_event]).
Proof. reflexivity. Qed.

Lemma match_end_events_leave_players_witness :
  Forall (fun r => is_string (get (body_of (snd r)) "type") "match_end" = true)
    two_match_ends
  /\ Players (replay (H := sample_runtime) two_match_ends empty_db)
     = Players empty_db.
Proof.
  split; [repeat constructor|].
  apply (match_end_events_leave_players (H := sample_runtime) two_match_ends
           empty_db).
  repeat constructor.
Defined.

(** One accepted [match_end] event for user 7 on an empty store is recorded
    and answered with success, but the store refuses the player update,
    whose [$inc] of [totals.games] collides with the [$setOnInsert] of
    [totals]: no player record exists afterwards. *)
Lemma match_end_event_counts_nothing :
  post_events (H := sample_runtime) quiet_events_io
    (event_body "e1" 7 "match_end" 1700000000) empty_db
  = (json 200 ok_true,
     {| Events :=
          [event_document (H := sample_runtime) quiet_events_io
             (event_body "e1" 7 "match_end" 1700000000)];
        Players := [];
        Games := [] |})
  /\ updateOne None [] "userId" (num 7)
       (player_update (H := sample_runtime) quiet_events_io
          (event_body "e1" 7 "match_end" 1700000000)) true
     = Rejected ConflictingUpdateOperators.
Proof. split; reflexivity. Qed.

Lemma upsert_header_touches_header_only_witness :
  header_accepted sample_header = true
  /\ exists s' g',
       post_games_upsert quiet_upsert_io sample_header empty_db
       = (json 200 ok_true, s')
       /\ Events s' = Events empty_db /\ Players s' = Players empty_db
       /\ find (matches "gameId" (game_id sample_header)) (Games s') = Some g'
       /\ Forall (fun kv => field g' (fst kv) = snd kv)
            (u_set (header_update quiet_upsert_io (body_of sample_header)))
       /\ match find (matches "gameId" (game_id sample_header))
                  (Games empty_db) with
          | Some g =>
              Forall (fun k => field g' k = field g k)
                ("status" :: "createdAt" :: finalize_only_fields)
              /\ (forall k, mentions header_fields k = false ->
                            field g' k = field g k)
              /\ List.length (Games s') = List.length (Games empty_db)
          | None =>
              field g' "status" = VStr "running"
              /\ field g' "createdAt" = num (now_game_createdAt quiet_upsert_io)
              /\ Games s' = Games empty_db ++ [g']
          end.
Proof.
  split; [reflexivity|].
  apply (upsert_header_touches_header_only quiet_upsert_io sample_header
           empty_db); reflexivity.
Defined.



(** Export after a finalize answers with the text the finalize cached. *)
Lemma export_after_finalize_returns_cached_text :
  exists p,
    generatePDN (H := sample_runtime) sample_date
      (pdn_input (sample_final "1-0" [ply "32-28"])) = Returns p
    /\ get_game_pdn (H := sample_runtime) quiet_export_io "g1"
         (snd (post_games_finalize (H := sample_runtime)
                 (quiet_finalize_io 1000) (sample_final "1-0" [ply "32-28"])
                 empty_db))
       = (Returns {| status := 200; body := PlainText (VStr (text p)) |},
          snd (post_games_finalize (H := sample_runtime)
                 (quiet_finalize_io 1000) (sample_final "1-0" [ply "32-28"])
                 empty_db)).
Proof. eexists. split; vm_compute; reflexivity. Qed.

(** Export of a game that only has a header computes the text on the spot
    and leaves the store alone. *)
Lemma export_of_running_game_recomputes :
  exists g p,
    find (matches "gameId" (VStr "g1"))
      (Games (snd (post_games_upsert quiet_upsert_io sample_header empty_db)))
    = Some g
    /\ truthy (cached_text g) = false
    /\ generatePDN (H := sample_runtime) sample_date (VObj g) = Returns p
    /\ tag p "GameType" = VStr "26"
    /\ get_game_pdn (H := sample_runtime) quiet_export_io "g1"
         (snd (post_games_upsert quiet_upsert_io sample_header empty_db))
       = (Returns {| status := 200; body := PlainText (VStr (text p)) |},
          snd (post_games_upsert quiet_upsert_io sample_header empty_db)).
Proof. do 2 eexists. repeat split; vm_compute; reflexivity. Qed.

(** A formatter call on [null] throws. *)
Lemma generatePDN_on_null_throws :
  generatePDN (H := sample_runtime) sample_date VNull = Throws TypeError.
Proof. reflexivity. Qed.

End Instances.

(* ================================================================== *)
(** ** More about the formatter *)
(* ================================================================== *)

Module FormatterMore.
Import JS Pdn Spec JSFacts PdnFacts PdnTheorems.
#[local] Open Scope string_scope.






Section WithRuntime.
Context `{Runtime}.







End WithRuntime.





End FormatterMore.

(* ================================================================== *)
(** ** More about the store *)
(* ================================================================== *)

Module StoreMore.
Import JS Mongo Spec JSFacts MongoFacts.
#[local] Open Scope string_scope.
#[local] Open Scope list_scope.

(** What [update_first] does to a collection, document by document. *)
Lemma update_first_rel (m : document -> bool)
    (g : document -> settled document) (c : collection) :
  forall c',
    update_first m g c = Some (Fulfilled c') ->
    Forall2 (fun x y => y = x \/ (m x = true /\ g x = Fulfilled y)) c c'.
Proof.
  induction c as [|d c IH]; intros c' Run; cbn in Run; [discriminate|].
  destruct (m d) eqn:Hit.
  - destruct (g d) as [d'|e] eqn:Done; [|discriminate].
    injection Run as <-. constructor; [now right|].
    clear. induction c; constructor; auto.
  - destruct (update_first m g c) as [[rest|e]|]; try discriminate.
    injection Run as <-. constructor; [now left | now apply IH].
Qed.





(** The upserting update of [updateOne_upsert], seen on the whole
    collection: documents other than the first match stay as they are. *)
Lemma updateOne_upsert_rel (c : collection) (k : string) (v : value)
    (u : update) (fresh : document) :
  conflict_free (paths_of u) = true ->
  (forall g, apply_update u g = Fulfilled (puts (u_set u) g)) ->
  upserted k v u = Fulfilled fresh ->
  exists c',
    updateOne None c k v u true = Fulfilled c'
    /\ (Forall2 (fun x y => y = x
                            \/ (matches k v x = true /\ y = puts (u_set u) x))
          c c'
        \/ (find (matches k v) c = None /\ c' = c ++ [fresh])).
Proof.
  intros Free Sets New. unfold updateOne. rewrite Free. cbn [negb].
  destruct (update_first (matches k v) (apply_update u) c) as [[c'|e]|] eqn:Run.
  - exists c'. split; [reflexivity|]. left.
    apply update_first_rel in Run.
    eapply Forall2_impl; [|exact Run].
    intros x y [->|[Hit Done]]; [now left|right].
    rewrite Sets in Done. injection Done as <-. now split.
  - exfalso. clear - Run Sets.
    induction c as [|d c IH]; cbn [update_first] in Run; [discriminate|].
    destruct (matches k v d).
    + rewrite Sets in Run. discriminate Run.
    + destruct (update_first (matches k v) (apply_update u) c) as [[r|e']|];
        try discriminate Run. injection Run as ->. now apply IH.
  - rewrite New. exists (c ++ [fresh]). split; [reflexivity|]. right.
    split; [|reflexivity].
    clear - Run.
    induction c as [|d c IH]; cbn [update_first find] in *; [reflexivity|].
    destruct (matches k v d); [discriminate Run|].
    destruct (update_first (matches k v) (apply_update u) c) as [[r|e']|];
      try discriminate Run. now apply IH.
Qed.



End StoreMore.

(* ================================================================== *)
(** ** What one request does to the store *)
(* ================================================================== *)

Module Effects.
Import JS Mongo Pdn Api Spec JSFacts MongoFacts PdnTheorems EventTheorems.
Import GameTheorems StoreMore.
#[local] Open Scope string_scope.
#[local] Open Scope list_scope.

Section WithRuntime.
Context `{Runtime}.

Lemma header_store_rel (io : UpsertIO) (b : value) (c : collection) :
  exists c',
    updateOne None c "gameId" (get b "gameId") (header_update io b) true
    = Fulfilled c'
    /\ upsert_effect "gameId" (get b "gameId") (header_update io b)
         (inserted "gameId" (get b "gameId") (header_update io b)) c c'.
Proof. apply updateOne_upsert_rel; reflexivity. Qed.

Lemma final_store_rel (io : FinalizeIO) (b : value) (p : pdn)
    (c : collection) :
  exists c',
    updateOne None c "gameId" (get b "gameId") (final_update io b p) true
    = Fulfilled c'
    /\ upsert_effect "gameId" (get b "gameId") (final_update io b p)
         (inserted "gameId" (get b "gameId") (final_update io b p)) c c'.
Proof. apply updateOne_upsert_rel; reflexivity. Qed.

Lemma player_store_rel (io : EventsIO) (b : value) (c : collection) :
  inc_for (get b "type") = [] ->
  exists c',
    updateOne None c "userId" (VNum (toInt (get b "userId") (Fin 0)))
      (player_update io b) true
    = Fulfilled c'
    /\ upsert_effect "userId" (VNum (toInt (get b "userId") (Fin 0)))
         (player_update io b)
         (inserted "userId" (VNum (toInt (get b "userId") (Fin 0)))
            (player_update io b)) c c'.
Proof.
  intro Uncounted.
  apply updateOne_upsert_rel;
    unfold paths_of, apply_update, upserted, inserted, player_update;
    cbn [u_set u_inc u_setOnInsert]; rewrite ?Uncounted; reflexivity.
Qed.

(** Every way a header upsert can end. *)
Lemma upsert_outcomes (io : UpsertIO) (req : value) (s : db) :
  (header_accepted req = false
   /\ post_games_upsert io req s = (json 400 (failure "missing_fields"), s))
  \/ (header_accepted req = true
      /\ exists e, upsert_fault io = Some e
                   /\ post_games_upsert io req s = (Throws e, s))
  \/ (header_accepted req = true /\ upsert_fault io = None
      /\ exists c',
           post_games_upsert io req s = (json 200 ok_true, with_Games s c')
           /\ upsert_effect "gameId" (game_id req)
                (header_update io (body_of req))
                (inserted "gameId" (game_id req)
                   (header_update io (body_of req)))
                (Games s) c').
Proof.
  unfold header_accepted, post_games_upsert, game_id. fold (body_of req).
  destruct (header_missing_fields (body_of req)); [now left|right].
  destruct (upsert_fault io) as [e|].
  - left. split; [reflexivity|]. now exists e.
  - right. split; [reflexivity|]. split; [reflexivity|].
    destruct (header_store_rel io (body_of req) (Games s)) as (c' & Run & Rel).
    rewrite Run. now exists c'.
Qed.

(** Every way a finalize can end. *)
Lemma finalize_outcomes (io : FinalizeIO) (req : value) (s : db) :
  (final_accepted req = false
   /\ post_games_finalize io req s = (json 400 (failure "missing_fields"), s))
  \/ (final_accepted req = true
      /\ exists e, finalize_fault io = Some e
                   /\ post_games_finalize io req s = (Throws e, s))
  \/ (final_accepted req = true /\ finalize_fault io = None
      /\ exists p c',
           generatePDN (finalize_date io) (pdn_input (body_of req)) = Returns p
           /\ post_games_finalize io req s
              = (json 200 ok_true, with_Games s c')
           /\ upsert_effect "gameId" (game_id req)
                (final_update io (body_of req) p)
                (inserted "gameId" (game_id req)
                   (final_update io (body_of req) p))
                (Games s) c').
Proof.
  unfold final_accepted, post_games_finalize, game_id. fold (body_of req).
  destruct (final_missing_fields (body_of req)); [now left|right].
  destruct (generatePDN_returns (finalize_date io) (pdn_input (body_of req))
              eq_refl) as [p Gen].
  rewrite Gen. destruct (finalize_fault io) as [e|].
  - left. split; [reflexivity|]. now exists e.
  - right. split; [reflexivity|]. split; [reflexivity|].
    destruct (final_store_rel io (body_of req) p (Games s))
      as (c' & Run & Rel).
    rewrite Run. now exists p, c'.
Qed.

#[local] Ltac store_unchanged s :=
  exists [], (Players s); rewrite app_nil_r; destruct s;
  repeat split; now left.

(** What an event request does to the three collections. *)
Lemma event_effect (io : EventsIO) (req : value) (s : db) :
  exists tail players',
    snd (post_events io req s)
    = {| Events := Events s ++ tail; Players := players';
         Games := Games s |}
    /\ (tail = []
        \/ (tail = [event_document io (body_of req)]
            /\ event_accepted req = true /\ insert_fault io = None
            /\ event_stored (event_id req) (Events s) = false))
    /\ (players' = Players s
        \/ upsert_effect "userId"
             (VNum (toInt (get (body_of req) "userId") (Fin 0)))
             (player_update io (body_of req))
             (inserted "userId"
                (VNum (toInt (get (body_of req) "userId") (Fin 0)))
                (player_update io (body_of req)))
             (Players s) players').
Proof.
  destruct (event_accepted req) eqn:Ok;
    [|rewrite (rejected_request io req s Ok); store_unchanged s].
  rewrite (accepted_run io req s Ok). unfold insertOne.
  rewrite event_document_id. fold (event_stored (event_id req) (Events s)).
  destruct (insert_fault io) as [e|] eqn:Fault.
  { destruct (String.eqb _ _); store_unchanged s. }
  destruct (event_stored (event_id req) (Events s)) eqn:Stored.
  { cbn [DuplicateKey error_code ToString number_to_string].
    store_unchanged s. }
  exists [event_document io (body_of req)].
  cbn [Players with_Events].
  destruct (inc_for (get (body_of req) "type")) as [|x l] eqn:Inc.
  - destruct (update_fault io) as [e|] eqn:Fault'.
    + unfold updateOne. exists (Players s). split; [reflexivity|].
      split; [right; repeat split; assumption | now left].
    + destruct (player_store_rel io (body_of req) (Players s) Inc)
        as (c' & -> & Rel).
      exists c'. split; [reflexivity|].
      split; [right; repeat split; assumption | now right].
  - exists (Players s). unfold updateOne.
    rewrite (counting_update_conflicts io (body_of req))
      by (rewrite Inc; discriminate).
    split; [now destruct (update_fault io)|].
    split; [right; repeat split; assumption | now left].
Qed.
End WithRuntime.

End Effects.

(* ================================================================== *)
(** ** Further properties of the handlers *)
(* ================================================================== *)

Module ApiMore.
Import JS Mongo Pdn Api Spec JSFacts MongoFacts PdnTheorems EventTheorems.
Import GameTheorems FormatterMore StoreMore Effects.
#[local] Open Scope string_scope.
#[local] Open Scope list_scope.

Section WithRuntime.
Context `{Runtime}.



(** X7.  Events are append-only.  An event request keeps every stored
    event in place and adds at most one at the end; it never touches the
    games.  The games handlers never touch events or players, and the two
    read routes leave the whole store as it is. *)
Theorem events_are_append_only (eio : EventsIO) (uio : UpsertIO)
    (fio : FinalizeIO) (xio : ExportIO) (fault : option exn) (req : value)
    (param : string) (s : db) :
  (exists tail,
      Events (snd (post_events eio req s)) = Events s ++ tail
      /\ List.length tail <= 1)
  /\ Games (snd (post_events eio req s)) = Games s
  /\ Events (snd (post_games_upsert uio req s)) = Events s
  /\ Players (snd (post_games_upsert uio req s)) = Players s
  /\ Events (snd (post_games_finalize fio req s)) = Events s
  /\ Players (snd (post_games_finalize fio req s)) = Players s
  /\ snd (get_game_pdn xio param s) = s
  /\ snd (get_player_summary fault param s) = s.
Proof.
  destruct (event_effect eio req s) as (tail & players' & -> & Tail & _).
  split; [|split; [reflexivity|]].
  { exists tail. split; [reflexivity|].
    destruct Tail as [->|(-> & _)]; cbn; lia. }
  assert (U : Events (snd (post_games_upsert uio req s)) = Events s
              /\ Players (snd (post_games_upsert uio req s)) = Players s).
  { destruct (upsert_outcomes uio req s)
      as [(_ & ->)|[(_ & e & _ & ->)|(_ & _ & c' & -> & _)]]; now split. }
  assert (F : Events (snd (post_games_finalize fio req s)) = Events s
              /\ Players (snd (post_games_finalize fio req s)) = Players s).
  { destruct (finalize_outcomes fio req s)
      as [(_ & ->)|[(_ & e & _ & ->)|(_ & _ & p & c' & _ & -> & _)]];
      now split. }
  destruct U as [U1 U2], F as [F1 F2].
  repeat (split; [assumption|]). split.
  - unfold get_game_pdn.
    destruct (findOne _ _ _ _) as [[g|]|e]; try reflexivity.
    destruct (truthy _); [reflexivity|].
    now destruct (generatePDN _ _).
  - unfold get_player_summary.
    now destruct (findOne _ _ _ _) as [[g|]|e].
Qed.


(** X9.  The key check.  A request gets past [requireApiKey] exactly when
    API_KEY is set, is not empty, and equals the X-Api-Key header; with
    API_KEY unset or empty nothing gets past, not even an empty or missing
    header.  A request that does not get past is answered 401 [{ok: false}]
    before any validation and without touching the store; one that does is
    handled as the route's handler does. *)
Theorem api_key_gate (API_KEY header : option string) (eio : EventsIO)
    (uio : UpsertIO) (fio : FinalizeIO) (lio : Legacy.EventsIO) (req : value)
    (s : db) (ls : Legacy.db) :
  requireApiKey API_KEY header
  = (if authorized API_KEY header then None else Some unauthorized)
  /\ route_events API_KEY header eio req s
     = (if authorized API_KEY header then post_events eio req s
        else (Returns unauthorized, s))
  /\ route_games_upsert API_KEY header uio req s
     = (if authorized API_KEY header then post_games_upsert uio req s
        else (Returns unauthorized, s))
  /\ route_games_finalize API_KEY header fio req s
     = (if authorized API_KEY header then post_games_finalize fio req s
        else (Returns unauthorized, s))
  /\ Legacy.route_events API_KEY header lio req ls
     = (if authorized API_KEY header then Legacy.post_events lio req ls
        else (Returns unauthorized, ls)).
Proof.
  assert (Gate : requireApiKey API_KEY header
                 = if authorized API_KEY header then None
                   else Some unauthorized).
  { unfold requireApiKey, authorized, header_or_empty.
    destruct API_KEY as [k|], header as [h|]; try reflexivity.
    - destruct (String.eqb k ""); [reflexivity|].
      now destruct (String.eqb h k).
    - destruct (String.eqb_spec k "") as [->|Ne]; [reflexivity|].
      destruct (String.eqb_spec "" k) as [<-|_]; [contradiction|reflexivity]. }
  unfold route_events, route_games_upsert, route_games_finalize,
    Legacy.route_events, guarded.
  rewrite Gate. now destruct (authorized API_KEY header).
Qed.

(** X10.  The earlier handler accepts exactly the requests that the
    current one accepts and whose userId is truthy: between the versions
    the check changed only for a userId that is present but falsy (0, false,
    the empty string, null). *)
Theorem legacy_accepts_less (req : value) :
  legacy_event_accepted req
  = event_accepted req && truthy (get (body_of req) "userId").
Proof.
  unfold legacy_event_accepted, event_accepted, events_missing_fields,
    Legacy.events_missing_fields.
  cbv zeta.
  destruct (truthy (get (body_of req) "eventId")),
    (truthy (get (body_of req) "type")), (truthy (get (body_of req) "ts"));
    cbn [negb orb andb]; rewrite ?orb_true_r; cbn [negb andb];
    try reflexivity.
  rewrite !orb_false_r.
  destruct (get (body_of req) "userId") as [ | |[]|[z| |neg]|x|l|o]; cbn;
    try reflexivity;
    [destruct (Z.eqb z 0) | destruct (String.eqb x "")]; reflexivity.
Qed.















End WithRuntime.

End ApiMore.

(* ================================================================== *)
(** ** The further properties at concrete requests *)
(* ================================================================== *)

Module MoreInstances.
Import JS Mongo Pdn Api Spec ApiMore.
#[local] Open Scope Z_scope.
#[local] Open Scope string_scope.
#[local] Open Scope list_scope.












End MoreInstances.
